(** * luarocks-build-hooks: [src/chdir.c]

    A shallow embedding of the Lua C function [chdir_lua] and of the part of
    its environment it talks to (the C library, the kernel's working
    directory, the Lua stack), followed by the properties of the
    "changeDirectory" operation.

    Layout:
    - C strings and the fixed buffer;
    - the host interface [Host]: what the C file takes from <limits.h>,
      <errno.h>, <string.h>, <unistd.h> and the Lua runtime;
    - the machine state and the monad the C code runs in;
    - [chdir_lua] and [luaopen_luarocks_build_hooks_chdir], transcribed
      statement by statement;
    - a small concrete host ([Unix]) on which everything can be evaluated;
    - the theorems about one call on a string, then about calls with any
      arguments, the loading of the module and sessions of calls, all over
      a Lua runtime that leaves errno alone while it pushes;
    - [chdir_lua_on]: the same code over a runtime that may change errno
      in [lua_pushstring], and what becomes of the code it returns. *)

From Stdlib Require Import ZArith List String Ascii Bool Arith Lia DecimalString.
Import ListNotations.

Local Open Scope string_scope.

(* ------------------------------------------------------------------------- *)
(** ** C strings *)

(** The terminating byte of a C string. *)
Definition NUL : ascii := Ascii.zero.

(** What C code reading a [char *] sees of the bytes stored there: the bytes
    before the first NUL. *)
Fixpoint c_str (mem : string) : string :=
  match mem with
  | EmptyString => EmptyString
  | String c rest => if Ascii.eqb c NUL then EmptyString else String c (c_str rest)
  end.

(** [string_drop n s]: [s] without its first [n] bytes. *)
Fixpoint string_drop (n : nat) (s : string) : string :=
  match n, s with
  | O, _ => s
  | S _, EmptyString => EmptyString
  | S n', String _ rest => string_drop n' rest
  end.

(** [string_repeat c n]: [n] copies of the byte [c]. *)
Fixpoint string_repeat (c : ascii) (n : nat) : string :=
  match n with
  | O => EmptyString
  | S n' => String c (string_repeat c n')
  end.

(** Storing the C string [src] at the start of the array [dst]: the bytes of
    [src], a terminator, and whatever [dst] held beyond. *)
Definition store_cstr (dst src : string) : string :=
  src ++ String NUL (string_drop (S (String.length src)) dst).

(* ------------------------------------------------------------------------- *)
(** ** Lua values *)

Inductive lua_value : Type :=
| LNil
| LBoolean (b : bool)
| LInteger (n : Z)
| LString (s : string)
| LTable
| LFunction.

(** [luaL_typename]. *)
Definition lua_typename (v : option lua_value) : string :=
  match v with
  | None => "no value"
  | Some LNil => "nil"
  | Some (LBoolean _) => "boolean"
  | Some (LInteger _) => "number"
  | Some (LString _) => "string"
  | Some LTable => "table"
  | Some LFunction => "function"
  end.

(** The error [luaL_checkstring] raises (a Lua error, thrown with longjmp). *)
Inductive lua_error : Type :=
| bad_argument (narg : nat) (expected got : string).

(* ------------------------------------------------------------------------- *)
(** ** <errno.h> *)

Definition EINVAL : Z := 22.
Definition ERANGE : Z := 34.

(* ------------------------------------------------------------------------- *)
(** ** The host *)

(** What [chdir.c] uses and does not define.  [world] is the kernel's side
    of the process: the file system and the working directory in it.
    Directories are [dir]s; path names are strings. *)
Class Host : Type := {
  world : Type;
  dir : Type;
  (** <limits.h> *)
  PATH_MAX : nat;
  (** the process's current working directory *)
  cwd : world -> dir;
  (** making [d] the working directory *)
  set_cwd : dir -> world -> world;
  (** path resolution as chdir(2) does it: the directory a path names, or
      the errno of the failure (ENOENT, ENOTDIR, EACCES, ELOOP,
      ENAMETOOLONG, ...) *)
  lookup : world -> string -> Z + dir;
  (** the absolute path name of the working directory, or the errno of the
      failure to produce one (ENOENT when it was removed, EACCES, ...) *)
  cwd_path : world -> Z + string;
  (** <string.h> *)
  strerror : Z -> string;
  (** the Lua runtime's rendering of a number as a string *)
  lua_number_tostring : Z -> string
}.

(** The facts about a host the theorems rest on, all from POSIX. *)
Class HostLaws (H : Host) : Prop := {
  (** after chdir succeeded, the working directory is the one the path named *)
  cwd_set_cwd : forall d w, cwd (set_cwd d w) = d;
  (** a failing call sets errno to a positive error number *)
  lookup_errno : forall w p e, lookup w p = inl e -> e <> 0%Z;
  cwd_path_errno : forall w e, cwd_path w = inl e -> e <> 0%Z;
  (** a path name is a C string: it has no NUL byte inside *)
  cwd_path_c_str : forall w p, cwd_path w = inr p -> c_str p = p;
  (** strerror returns a message for every number *)
  strerror_nonempty : forall e, strerror e <> ""
}.

(* ------------------------------------------------------------------------- *)
(** ** The machine *)

(** The calls the process makes into the operating system, as it makes them. *)
Inductive os_call : Type :=
| call_getcwd (size : nat)
| call_chdir (pathname : string).

(** A [char *] of [chdir_lua]: NULL or the address of its static buffer. *)
Inductive ptr : Type := NULL | BUF.

Definition is_null (p : ptr) : bool :=
  match p with NULL => true | BUF => false end.

Section Machine.

Context {H : Host}.

Record machine : Type := mk_machine {
  os : world;                 (* the kernel's side *)
  errno : Z;                  (* <errno.h> errno *)
  buf : string;               (* static char buf[PATH_MAX] of chdir_lua *)
  stack : list lua_value;     (* the Lua stack of the running C function, index 1 first *)
  trace : list os_call        (* operating-system calls made so far, oldest first *)
}.

Definition set_os (w : world) (m : machine) : machine :=
  mk_machine w (errno m) (buf m) (stack m) (trace m).
Definition set_errno (e : Z) (m : machine) : machine :=
  mk_machine (os m) e (buf m) (stack m) (trace m).
Definition set_buf (b : string) (m : machine) : machine :=
  mk_machine (os m) (errno m) b (stack m) (trace m).
Definition set_stack (s : list lua_value) (m : machine) : machine :=
  mk_machine (os m) (errno m) (buf m) s (trace m).
Definition set_trace (t : list os_call) (m : machine) : machine :=
  mk_machine (os m) (errno m) (buf m) (stack m) t.

(** A process that has just loaded the module: [buf] is zero-initialised
    ([= {0}]), errno is clear, nothing was called. *)
Definition boot (w : world) : machine :=
  mk_machine w 0%Z (string_repeat NUL PATH_MAX) [] [].

(** *** The monad of C code: machine state, and Lua errors that unwind *)

Inductive result (A : Type) : Type :=
| Ok (a : A) (m : machine)
| Raise (e : lua_error) (m : machine).
Arguments Ok {A} a m.
Arguments Raise {A} e m.

Definition M (A : Type) : Type := machine -> result A.

Definition ret {A} (a : A) : M A := fun m => Ok a m.

Definition bind {A B} (c : M A) (k : A -> M B) : M B :=
  fun m => match c m with
           | Ok a m' => k a m'
           | Raise e m' => Raise e m'
           end.

Notation "x <- c ;; k" := (bind c (fun x => k))
  (at level 61, c at next level, right associativity).
Notation "c ;; k" := (bind c (fun _ => k))
  (at level 61, right associativity).

(** *** <unistd.h> *)

(** The answer of getcwd(3) for a buffer of [size] bytes: EINVAL for an
    empty buffer, the kernel's error if it has no path name to give, ERANGE
    when the path name and its terminator do not fit, the path name
    otherwise. *)
Definition getcwd_query (w : world) (size : nat) : Z + string :=
  if (size =? 0)%nat then inl EINVAL
  else match cwd_path w with
       | inl e => inl e
       | inr p => if (size <=? String.length p)%nat then inl ERANGE else inr p
       end.

(** [getcwd(buf, size)] with [buf] the static buffer: on success the path
    name is stored there and the buffer's address returned; on failure
    errno is set and NULL returned (POSIX leaves the buffer's contents
    unspecified then; [chdir_lua] does not read it on that path, and the
    model leaves it as it was). *)
Definition getcwd (size : nat) : M ptr := fun m =>
  let m := set_trace (trace m ++ [call_getcwd size]) m in
  match getcwd_query (os m) size with
  | inl e => Ok NULL (set_errno e m)
  | inr p => Ok BUF (set_buf (store_cstr (buf m) p) m)
  end.

(** [chdir(pathname)]: the kernel reads the C string at [pathname] and
    resolves it; 0 and a new working directory, or -1 and errno. *)
Definition chdir (pathname : string) : M Z := fun m =>
  let m := set_trace (trace m ++ [call_chdir pathname]) m in
  match lookup (os m) (c_str pathname) with
  | inl e => Ok (-1)%Z (set_errno e m)
  | inr d => Ok 0%Z (set_os (set_cwd d (os m)) m)
  end.

(** Reading the lvalue [errno]. *)
Definition get_errno : M Z := fun m => Ok (errno m) m.

(** The C string a pointer of [chdir_lua] points to, as [lua_pushstring]
    reads it when it copies it. *)
Definition load_cstr (p : ptr) : M string := fun m =>
  match p with
  | NULL => Ok "" m
  | BUF => Ok (c_str (buf m)) m
  end.

(** *** <lua.h>, <lauxlib.h> *)

(** Pushing a value grows the stack by one.  This is the push of a Lua
    runtime that leaves errno as it finds it; the Lua API does not promise
    that of [lua_pushstring], and [lua_pushstring_on] and [chdir_lua_on]
    below are the same code over a runtime that may change errno. *)
Definition lua_push (v : lua_value) : M unit := fun m =>
  Ok tt (set_stack (stack m ++ [v]) m).

Definition lua_pushnil : M unit := lua_push LNil.
Definition lua_pushstring (s : string) : M unit := lua_push (LString s).
Definition lua_pushinteger (n : Z) : M unit := lua_push (LInteger n).

(** [lua_pushcfunction(L, f)]: the value pushed is a function; the module
    has one C function to push. *)
Definition lua_pushcfunction (f : M nat) : M unit := lua_push LFunction.

(** [luaL_checkstring(L, narg)]: the bytes of a string argument; a number
    is converted to a string where it stands; anything else raises. *)
Definition luaL_checkstring (narg : nat) : M string := fun m =>
  match nth_error (stack m) (narg - 1) with
  | Some (LString s) => Ok s m
  | Some (LInteger n) =>
      let s := lua_number_tostring n in
      Ok s (set_stack (firstn (narg - 1) (stack m) ++ LString s :: skipn narg (stack m)) m)
  | v => Raise (bad_argument narg "string" (lua_typename v)) m
  end.

(** *** chdir.c *)

(**
<<
static int chdir_lua(lua_State *L)
{
    const char *pathname      = luaL_checkstring(L, 1);
    static char buf[PATH_MAX] = {0};
    char *cwd                 = getcwd(buf, PATH_MAX);

    if (!cwd) {
        lua_pushnil(L);
        lua_pushstring(L, strerror(errno));
        lua_pushinteger(L, errno);
        return 3;
    } else if (chdir(pathname) == 0) {
        lua_pushstring(L, cwd);
        return 1;
    }
    lua_pushnil(L);
    lua_pushstring(L, strerror(errno));
    lua_pushinteger(L, errno);
    return 3;
}
>>
*)
Definition chdir_lua : M nat :=
  pathname <- luaL_checkstring 1 ;;
  cwd <- getcwd PATH_MAX ;;
  if is_null cwd then
    lua_pushnil ;;
    e <- get_errno ;;
    lua_pushstring (strerror e) ;;
    e <- get_errno ;;
    lua_pushinteger e ;;
    ret 3
  else
    r <- chdir pathname ;;
    if (r =? 0)%Z then
      s <- load_cstr cwd ;;
      lua_pushstring s ;;
      ret 1
    else
      lua_pushnil ;;
      e <- get_errno ;;
      lua_pushstring (strerror e) ;;
      e <- get_errno ;;
      lua_pushinteger e ;;
      ret 3.

(**
<<
LUALIB_API int luaopen_luarocks_build_hooks_chdir(lua_State *L)
{
    lua_pushcfunction(L, chdir_lua);
    return 1;
}
>>
*)
Definition luaopen_luarocks_build_hooks_chdir : M nat :=
  lua_pushcfunction chdir_lua ;;
  ret 1.

(** *** errno across the Lua API *)

(** [lua_pushstring] makes a new Lua string: it allocates, and an allocation
    may run a step of the collector and with it the [__gc] finalizers that
    are due, which may call into the operating system.  What errno holds
    when [lua_pushstring] returns is therefore the runtime's to say: a
    [runtime] gives it, from the string pushed and errno before the push.
    [lua_pushnil] and [lua_pushinteger] store a value and allocate
    nothing. *)
Definition runtime : Type := string -> Z -> Z.

(** The runtime in which [lua_pushstring] leaves errno alone. *)
Definition quiet : runtime := fun _ e => e.

(** A runtime in which the push finds a finalizer due whose last call into
    the operating system failed with [e']. *)
Definition finalizer_leaves (e' : Z) : runtime := fun _ _ => e'.

Definition lua_pushstring_on (rt : runtime) (s : string) : M unit := fun m =>
  Ok tt (set_errno (rt s (errno m)) (set_stack (stack m ++ [LString s]) m)).

(** [chdir_lua], the same statements, over a runtime [rt]. *)
Definition chdir_lua_on (rt : runtime) : M nat :=
  pathname <- luaL_checkstring 1 ;;
  cwd <- getcwd PATH_MAX ;;
  if is_null cwd then
    lua_pushnil ;;
    e <- get_errno ;;
    lua_pushstring_on rt (strerror e) ;;
    e <- get_errno ;;
    lua_pushinteger e ;;
    ret 3
  else
    r <- chdir pathname ;;
    if (r =? 0)%Z then
      s <- load_cstr cwd ;;
      lua_pushstring_on rt s ;;
      ret 1
    else
      lua_pushnil ;;
      e <- get_errno ;;
      lua_pushstring_on rt (strerror e) ;;
      e <- get_errno ;;
      lua_pushinteger e ;;
      ret 3.

(** *** Calling a C function from Lua *)

(** What the caller gets: the values returned, or the error raised. *)
Inductive outcome : Type :=
| Returned (values : list lua_value) (m : machine)
| Threw (e : lua_error) (m : machine).

(** [lua_call]: the function runs on a stack holding its arguments; its
    results are the topmost [n] values when it returns [n]. *)
Definition lua_call (f : M nat) (args : list lua_value) (m : machine) : outcome :=
  match f (set_stack args m) with
  | Ok n m' => Returned (skipn (List.length (stack m') - n) (stack m')) m'
  | Raise e m' => Threw e m'
  end.

(** The operation the module exports, applied to a string. *)
Definition changeDirectory (targetPath : string) (m : machine) : outcome :=
  lua_call chdir_lua [LString targetPath] m.

(** Projections of an outcome. *)
Definition values_of (o : outcome) : option (list lua_value) :=
  match o with Returned vs _ => Some vs | Threw _ _ => None end.

Definition machine_of (o : outcome) : machine :=
  match o with Returned _ m => m | Threw _ m => m end.

(** The two forms of result. *)
Definition success_form (previous : string) : list lua_value :=
  [LString previous].

Definition failure_form (message : string) (code : Z) : list lua_value :=
  [LNil; LString message; LInteger code].

End Machine.

(* ------------------------------------------------------------------------- *)
(** ** A concrete host *)

(** A small Unix: a tree of directories and files, a working directory in
    it, path resolution component by component.  It is there to run
    [chdir_lua] on, and shows that [HostLaws] can be met. *)
Module Unix.

(** <errno.h> *)
Definition ENOENT : Z := 2.
Definition EACCES : Z := 13.
Definition ENOTDIR : Z := 20.
Definition ENAMETOOLONG : Z := 36.

(** <limits.h> *)
Definition NAME_MAX : nat := 255.

(** What a name in the tree stands for; [Locked] is a directory the process
    has no search permission on. *)
Inductive node : Type := Directory | Locked | File.

(** A place in the tree: the names on the way from the root. *)
Definition place : Type := list string.

Record fs : Type := mk_fs {
  nodes : list (place * node);   (* what exists besides the root *)
  wd : place                     (* the working directory *)
}.

Definition place_eqb (a b : place) : bool :=
  if list_eq_dec string_dec a b then true else false.

Fixpoint node_at (ns : list (place * node)) (p : place) : option node :=
  match ns with
  | [] => None
  | (q, k) :: rest => if place_eqb q p then Some k else node_at rest p
  end.

(** The root is always there. *)
Definition stat (w : fs) (p : place) : option node :=
  match p with
  | [] => Some Directory
  | _ => node_at (nodes w) p
  end.

(** The components of a path name, split at the slashes. *)
Fixpoint split_path (s : string) (cur : string) : list string :=
  match s with
  | EmptyString => [cur]
  | String c rest =>
      if Ascii.eqb c "/"%char then cur :: split_path rest ""
      else split_path rest (cur ++ String c "")
  end.

(** Walking the components from a starting place. *)
Fixpoint walk (w : fs) (from : place) (comps : list string) : Z + place :=
  match comps with
  | [] => inr from
  | c :: cs =>
      if (c =? "") || (c =? ".") then walk w from cs
      else if c =? ".." then walk w (removelast from) cs
      else if (NAME_MAX <? String.length c)%nat then inl ENAMETOOLONG
      else match stat w (from ++ [c])%list with
           | None => inl ENOENT
           | Some File => inl ENOTDIR
           | Some Locked => inl EACCES
           | Some Directory => walk w (from ++ [c])%list cs
           end
  end.

Definition path_max : nat := 4096.

Definition resolve (w : fs) (p : string) : Z + place :=
  match p with
  | EmptyString => inl ENOENT
  | String c _ =>
      if (path_max <=? String.length p)%nat then inl ENAMETOOLONG
      else if Ascii.eqb c "/"%char then walk w [] (split_path p "")
      else match stat w (wd w) with
           | None => inl ENOENT
           | Some _ => walk w (wd w) (split_path p "")
           end
  end.

(** The absolute path name of a place. *)
Definition render (p : place) : string :=
  match p with
  | [] => "/"
  | _ => String.concat "" (map (fun c => "/" ++ c) p)
  end.

Definition pwd (w : fs) : Z + string :=
  match stat w (wd w) with
  | None => inl ENOENT
  | Some _ => inr (c_str (render (wd w)))
  end.

Definition message (e : Z) : string :=
  if (e =? 0)%Z then "Success"
  else if (e =? ENOENT)%Z then "No such file or directory"
  else if (e =? EACCES)%Z then "Permission denied"
  else if (e =? ENOTDIR)%Z then "Not a directory"
  else if (e =? EINVAL)%Z then "Invalid argument"
  else if (e =? ERANGE)%Z then "Numerical result out of range"
  else if (e =? ENAMETOOLONG)%Z then "File name too long"
  else "Unknown error " ++ NilZero.string_of_int (Z.to_int e).

Definition host : Host := {|
  world := fs;
  dir := place;
  PATH_MAX := path_max;
  cwd := wd;
  set_cwd := fun d w => mk_fs (nodes w) d;
  lookup := resolve;
  cwd_path := pwd;
  strerror := message;
  lua_number_tostring := fun n => NilZero.string_of_int (Z.to_int n)
|}.

(** *** Worlds to run on *)

(** [/tmp], [/home], [/home/user], a file [/etc/passwd] and a directory
    [/root] the process may not enter; the process is in [/home/user]. *)
Definition small : fs :=
  mk_fs [ (["tmp"], Directory); (["home"], Directory);
          (["home"; "user"], Directory); (["etc"], Directory);
          (["etc"; "passwd"], File); (["root"], Locked) ]
        ["home"; "user"].

(** The same tree, the working directory removed under the process. *)
Definition orphaned : fs :=
  mk_fs [ (["tmp"], Directory) ] ["gone"].

(** A chain of [n] nested directories, each named by 255 letters [a]. *)
Definition long_name : string := string_repeat "a"%char 255.

Fixpoint chain (n : nat) : list (place * node) :=
  match n with
  | O => []
  | S n' => (chain n' ++ [(repeat long_name n, Directory)])%list
  end.

(** Sixteen levels deep: the path name of the innermost directory has
    16 * 256 = 4096 bytes; the process starts at the root. *)
Definition deep : fs := mk_fs (chain 16) [].

(** The same tree, the process inside the innermost directory. *)
Definition deep_inside : fs := mk_fs (chain 16) (repeat long_name 16).

End Unix.

(** The path name of the innermost directory of [Unix.deep]: 4096 bytes. *)
Definition deep_path : string := Unix.render (repeat Unix.long_name 16).

(** The path name of the directory above it: 3840 bytes. *)
Definition above_path : string := Unix.render (repeat Unix.long_name 15).

(* ------------------------------------------------------------------------- *)
(** ** Vocabulary of the specification *)

Section Vocabulary.

Context {H : Host}.

(** "D exists and is accessible": the path name, read as the C string the
    kernel receives, resolves to the directory [d]. *)
Definition accessible (w : world) (D : string) (d : dir) : Prop :=
  lookup w (c_str D) = inr d.

(** "the process's current working directory is C". *)
Definition cwd_is (w : world) (C : string) : Prop :=
  cwd_path w = inr C.

(** The initial query of [chdir_lua] succeeds. *)
Definition query_succeeds (w : world) : Prop :=
  exists p, getcwd_query w PATH_MAX = inr p.

(** The machine a call leaves behind in each of its three runs. *)
Definition after_query_failure (targetPath : string) (e : Z) (m : machine) : machine :=
  mk_machine (os m) e (buf m)
    [LString targetPath; LNil; LString (strerror e); LInteger e]
    (trace m ++ [call_getcwd PATH_MAX]).

Definition after_chdir_failure (targetPath p : string) (e : Z) (m : machine) : machine :=
  mk_machine (os m) e (store_cstr (buf m) p)
    [LString targetPath; LNil; LString (strerror e); LInteger e]
    (trace m ++ [call_getcwd PATH_MAX; call_chdir targetPath]).

Definition after_success (targetPath p : string) (d : dir) (m : machine) : machine :=
  mk_machine (set_cwd d (os m)) (errno m) (store_cstr (buf m) p)
    [LString targetPath; LString (c_str p)]
    (trace m ++ [call_getcwd PATH_MAX; call_chdir targetPath]).

(** The operating-system calls an invocation started on [m] has made. *)
Definition new_calls (m : machine) (o : outcome) : list os_call :=
  skipn (List.length (trace m)) (trace (machine_of o)).

(** Every call is one of the three runs. *)
Inductive run_of (targetPath : string) (m : machine) : outcome -> Prop :=
| query_failed e :
    getcwd_query (os m) PATH_MAX = inl e ->
    run_of targetPath m
      (Returned (failure_form (strerror e) e) (after_query_failure targetPath e m))
| chdir_failed p e :
    getcwd_query (os m) PATH_MAX = inr p ->
    lookup (os m) (c_str targetPath) = inl e ->
    run_of targetPath m
      (Returned (failure_form (strerror e) e) (after_chdir_failure targetPath p e m))
| changed p d :
    getcwd_query (os m) PATH_MAX = inr p ->
    lookup (os m) (c_str targetPath) = inr d ->
    run_of targetPath m
      (Returned (success_form (c_str p)) (after_success targetPath p d m)).

End Vocabulary.

(* ------------------------------------------------------------------------- *)
(** ** Calls with any arguments, and sessions of calls *)

Section Sessions.

Context {H : Host}.

(** The path name [luaL_checkstring] makes of a first argument, if any. *)
Definition target_of (v : option lua_value) : option string :=
  match v with
  | Some (LString s) => Some s
  | Some (LInteger n) => Some (lua_number_tostring n)
  | _ => None
  end.

(** A session: the module's function called again and again, each time with
    a list of arguments, on the machine the call before left (a raised
    error ends a call, not the process).  The answers are collected, oldest
    first. *)
Fixpoint session (calls : list (list lua_value)) (m : machine)
  : list (option (list lua_value)) * machine :=
  match calls with
  | [] => ([], m)
  | args :: rest =>
      let o := lua_call chdir_lua args m in
      let (answers, m') := session rest (machine_of o) in
      (values_of o :: answers, m')
  end.

(** Traces in which every call into the operating system belongs to a
    block: a query with PATH_MAX alone, or such a query followed at once by
    one chdir. *)
Inductive query_first : list os_call -> Prop :=
| qf_none : query_first []
| qf_query t :
    query_first t -> query_first (t ++ [call_getcwd PATH_MAX])
| qf_query_chdir t p :
    query_first t -> query_first (t ++ [call_getcwd PATH_MAX; call_chdir p]).

End Sessions.

(* ------------------------------------------------------------------------- *)
(** ** C strings: lemmas *)

Lemma c_str_app_nul (p rest : string) :
  c_str (p ++ String NUL rest) = c_str p.
Proof.
  induction p as [|c p IH]; simpl.
  - reflexivity.
  - destruct (Ascii.eqb c NUL); [reflexivity | now rewrite IH].
Qed.


Lemma c_str_idem (s : string) : c_str (c_str s) = c_str s.
Proof.
  induction s as [|c s IH]; simpl; [reflexivity|].
  destruct (Ascii.eqb c NUL) eqn:E; simpl; [reflexivity|].
  now rewrite E, IH.
Qed.

Lemma c_str_store (dst src : string) :
  c_str (store_cstr dst src) = c_str src.
Proof. unfold store_cstr. apply c_str_app_nul. Qed.

(** A C string that fits in an array with its terminator leaves the size of
    the array as it was: nothing is written past its end. *)
Lemma store_cstr_length (dst src : string) :
  String.length src < String.length dst ->
  String.length (store_cstr dst src) = String.length dst.
Proof.
  unfold store_cstr. revert dst.
  induction src as [|c src IH]; intros [|d dst]; simpl; try lia.
  intros Hlt. f_equal. apply IH. lia.
Qed.

(* ------------------------------------------------------------------------- *)
(** ** The three runs of [chdir_lua] *)

Section Runs.

Context {H : Host}.


Lemma app_two {A} (l : list A) (a b : A) : ((l ++ [a]) ++ [b] = l ++ [a; b])%list.
Proof. now rewrite <- app_assoc. Qed.

(** The query fails: the failure form from its errno; chdir is not called. *)
Lemma run_query_failure (targetPath : string) (m : machine) (e : Z) :
  getcwd_query (os m) PATH_MAX = inl e ->
  changeDirectory targetPath m =
    Returned (failure_form (strerror e) e) (after_query_failure targetPath e m).
Proof.
  intros Hq.
  unfold changeDirectory, lua_call, chdir_lua, bind, luaL_checkstring, getcwd.
  cbn. rewrite Hq. reflexivity.
Qed.

(** The query succeeds and chdir fails: the failure form from chdir's errno. *)
Lemma run_chdir_failure (targetPath : string) (m : machine) (p : string) (e : Z) :
  getcwd_query (os m) PATH_MAX = inr p ->
  lookup (os m) (c_str targetPath) = inl e ->
  changeDirectory targetPath m =
    Returned (failure_form (strerror e) e) (after_chdir_failure targetPath p e m).
Proof.
  intros Hq Hl.
  unfold changeDirectory, lua_call, chdir_lua, bind, luaL_checkstring, getcwd, chdir.
  cbn. rewrite Hq. cbn. rewrite Hl. cbn.
  unfold after_chdir_failure. now rewrite app_two.
Qed.

(** Both succeed: the success form with what the buffer holds. *)
Lemma run_success (targetPath : string) (m : machine) (p : string) (d : dir) :
  getcwd_query (os m) PATH_MAX = inr p ->
  lookup (os m) (c_str targetPath) = inr d ->
  changeDirectory targetPath m =
    Returned (success_form (c_str p)) (after_success targetPath p d m).
Proof.
  intros Hq Hl.
  unfold changeDirectory, lua_call, chdir_lua, bind, luaL_checkstring, getcwd, chdir.
  cbn. rewrite Hq. cbn. rewrite Hl. cbn.
  unfold after_success. now rewrite app_two, c_str_store.
Qed.

Lemma changeDirectory_run (targetPath : string) (m : machine) :
  run_of targetPath m (changeDirectory targetPath m).
Proof.
  destruct (getcwd_query (os m) PATH_MAX) as [e|p] eqn:Hq.
  - rewrite (run_query_failure _ _ _ Hq). now constructor.
  - destruct (lookup (os m) (c_str targetPath)) as [e|d] eqn:Hl.
    + rewrite (run_chdir_failure _ _ _ _ Hq Hl). now constructor.
    + rewrite (run_success _ _ _ _ Hq Hl). now constructor.
Qed.

(** The one way to a Lua error: an argument that is neither a string nor a
    number stops [chdir_lua] at its first statement, before any call into
    the operating system. *)
Lemma run_bad_argument (args : list lua_value) (m : machine) :
  match nth_error args 0 with
  | Some (LString _) | Some (LInteger _) => True
  | v => lua_call chdir_lua args m
         = Threw (bad_argument 1 "string" (lua_typename v)) (set_stack args m)
  end.
Proof.
  destruct args as [|[] rest]; cbn; trivial.
Qed.

(** What the query returns when it succeeds. *)
Lemma getcwd_query_inr (w : world) (size : nat) (p : string) :
  getcwd_query w size = inr p <->
  cwd_path w = inr p /\ String.length p < size.
Proof.
  unfold getcwd_query.
  destruct (Nat.eqb_spec size 0) as [->|Hs].
  - split; [discriminate | intros [_ Hl]; lia].
  - destruct (cwd_path w) as [e|q].
    + split; [discriminate | intros [Hc _]; discriminate].
    + destruct (Nat.leb_spec size (String.length q)).
      * split; [discriminate | intros [Hc Hl]; injection Hc as ->; lia].
      * split; [intros Hc; injection Hc as ->; split; [reflexivity | lia]
               | intros [Hc _]; exact Hc].
Qed.


(** [buf] keeps its PATH_MAX bytes through every call. *)
Lemma buffer_size_kept (targetPath : string) (m : machine) :
  String.length (buf m) = PATH_MAX ->
  String.length (buf (machine_of (changeDirectory targetPath m))) = PATH_MAX.
Proof.
  intros Hsize.
  destruct (changeDirectory_run targetPath m) as [e Hq | p e Hq Hl | p d Hq Hl];
    cbn; trivial;
    apply getcwd_query_inr in Hq as [_ Hfit];
    rewrite store_cstr_length; lia.
Qed.

End Runs.

(* ------------------------------------------------------------------------- *)
(** ** The concrete host meets the laws *)

Lemma unix_walk_errno (w : Unix.fs) (comps : list string) :
  forall (from : Unix.place) (e : Z), Unix.walk w from comps = inl e -> e <> 0%Z.
Proof.
  induction comps as [|c cs IH]; intros from e; simpl.
  - discriminate.
  - destruct ((c =? "") || (c =? ".")); [apply IH|].
    destruct (c =? ".."); [apply IH|].
    destruct (Unix.NAME_MAX <? String.length c)%nat; [intros [= <-]; discriminate|].
    destruct (Unix.stat w (from ++ [c])%list) as [[| |]|];
      try (intros [= <-]; discriminate).
    apply IH.
Qed.

Lemma unix_resolve_errno (w : Unix.fs) (p : string) (e : Z) :
  Unix.resolve w p = inl e -> e <> 0%Z.
Proof.
  unfold Unix.resolve.
  destruct p as [|c rest]; [intros [= <-]; discriminate|].
  destruct (Unix.path_max <=? String.length (String c rest))%nat;
    [intros [= <-]; discriminate|].
  destruct (Ascii.eqb c "/"%char); [apply unix_walk_errno|].
  destruct (Unix.stat w (Unix.wd w)); [apply unix_walk_errno|].
  intros [= <-]; discriminate.
Qed.

Lemma unix_message_nonempty (e : Z) : Unix.message e <> "".
Proof.
  unfold Unix.message.
  repeat match goal with
         | |- context [if ?b then _ else _] => destruct b
         end; discriminate.
Qed.

Lemma unix_laws : HostLaws Unix.host.
Proof.
  constructor; simpl.
  - reflexivity.
  - exact unix_resolve_errno.
  - intros w e. unfold Unix.pwd.
    destruct (Unix.stat w (Unix.wd w)); intros [= <-]; discriminate.
  - intros w p. unfold Unix.pwd.
    destruct (Unix.stat w (Unix.wd w)); intros [= <-]. apply c_str_idem.
  - exact unix_message_nonempty.
Qed.

(* ------------------------------------------------------------------------- *)
(** ** Properties of changeDirectory *)

Section Properties.

Context {H : Host}.

(** C1, as the code has it.  For every directory D that exists and is
    accessible, if the process's current working directory is C when
    changeDirectory(D) is called and C with its terminator fits in PATH_MAX
    bytes (so that the initial query succeeds), the call returns the success
    form carrying exactly the string C, and after the call the process's
    current working directory equals D. *)
Theorem success_path {HL : HostLaws H} (m : machine) (D C : string) (d : dir) :
  accessible (os m) D d ->
  cwd_is (os m) C ->
  String.length C < PATH_MAX ->
  exists m', changeDirectory D m = Returned (success_form C) m' /\ cwd (os m') = d.
Proof.
  intros HD HC Hfit.
  assert (Hq : getcwd_query (os m) PATH_MAX = inr C)
    by (apply getcwd_query_inr; split; assumption).
  exists (after_success D C d m). split.
  - rewrite (run_success D m C d Hq HD).
    now rewrite (cwd_path_c_str _ _ HC).
  - simpl. apply cwd_set_cwd.
Qed.



(** C4.  Every invocation of changeDirectory returns: it raises nothing,
    and what it returns is the single success value (a string) or the
    failure triple (nil, message, code); the two forms have nothing in
    common, so never a mixture. *)
Theorem exactly_one_form (m : machine) (targetPath : string) :
  (exists m',
     (exists previous, changeDirectory targetPath m = Returned (success_form previous) m') \/
     (exists msg code, changeDirectory targetPath m = Returned (failure_form msg code) m')) /\
  (forall previous msg code, success_form previous <> failure_form msg code).
Proof.
  split.
  - destruct (changeDirectory_run targetPath m); eexists; eauto.
  - unfold success_form, failure_form. discriminate.
Qed.

(** C5, as the code has it.  For accessible directories A and B, the
    sequence changeDirectory(A); changeDirectory(B); changeDirectory(r),
    where r is the success value returned by the second call and the name
    the system reported for A still leads to A, leaves the working directory
    equal to A, provided the initial query of the third call succeeds (the
    path name of B fits in PATH_MAX bytes). *)
Theorem round_trip {HL : HostLaws H} (m0 : machine) (A B r : string) (a b : dir) :
  let m1 := machine_of (changeDirectory A m0) in
  let m2 := machine_of (changeDirectory B m1) in
  let m3 := machine_of (changeDirectory r m2) in
  accessible (os m0) A a ->
  accessible (os m1) B b ->
  values_of (changeDirectory B m1) = Some (success_form r) ->
  (forall p, cwd_is (os m1) p -> accessible (os m2) p (cwd (os m1))) ->
  query_succeeds (os m2) ->
  cwd (os m3) = a.
Proof.
  intros m1 m2 m3 HA HB Hr Hback [q Hq2].
  (* the first call: had its query failed, the second would fail alike *)
  assert (H1 : cwd (os m1) = a).
  { subst m1. destruct (changeDirectory_run A m0) as [e Hq | p e Hq Hl | p d Hq Hl].
    - exfalso. subst m2. cbn [machine_of] in Hr.
      assert (Hq' : getcwd_query (os (after_query_failure A e m0)) PATH_MAX = inl e)
        by exact Hq.
      rewrite (run_query_failure B _ e Hq') in Hr. discriminate.
    - unfold accessible in HA. congruence.
    - cbn. rewrite cwd_set_cwd. unfold accessible in HA. congruence. }
  (* the second call: r is the name reported for A *)
  assert (H2 : cwd_is (os m1) r /\ os m2 = set_cwd b (os m1)).
  { subst m2. destruct (changeDirectory_run B m1) as [e Hq | p e Hq Hl | p d Hq Hl];
      cbn [values_of machine_of] in *; try discriminate.
    apply getcwd_query_inr in Hq as [Hc _].
    injection Hr as <-. rewrite (cwd_path_c_str _ _ Hc).
    unfold accessible in HB. split; [exact Hc | cbn; congruence]. }
  destruct H2 as [Hc Hw2].
  (* the third call *)
  specialize (Hback r Hc). rewrite H1 in Hback.
  subst m3. rewrite (run_success r m2 q a Hq2 Hback). cbn. apply cwd_set_cwd.
Qed.


(** C7.  What a call returns, and the working directory it leaves, do not
    depend on anything retained from earlier calls: two machines in the
    same kernel state, whatever the static buffer, errno, the Lua stack and
    the calls made before, give the same values and the same kernel state. *)
Theorem previous_directory_not_retained (m1 m2 : machine) (targetPath : string) :
  os m1 = os m2 ->
  values_of (changeDirectory targetPath m1) = values_of (changeDirectory targetPath m2) /\
  os (machine_of (changeDirectory targetPath m1)) =
  os (machine_of (changeDirectory targetPath m2)).
Proof.
  intros Hw.
  destruct (changeDirectory_run targetPath m1) as [e Hq | p e Hq Hl | p d Hq Hl];
    rewrite Hw in *.
  - rewrite (run_query_failure targetPath m2 e Hq). cbn. now rewrite Hw.
  - rewrite (run_chdir_failure targetPath m2 p e Hq Hl). cbn. now rewrite Hw.
  - rewrite (run_success targetPath m2 p d Hq Hl). cbn. now rewrite Hw.
Qed.



End Properties.

(* ------------------------------------------------------------------------- *)
(** ** Arguments, module loading and sessions *)

Section Calls.

Context {H : Host}.

Lemma skipn_results {A} (below vs : list A) (n : nat) :
  n = List.length vs ->
  skipn (List.length (below ++ vs) - n) (below ++ vs) = vs.
Proof.
  intros ->. rewrite length_app, Nat.add_sub.
  now rewrite skipn_app, skipn_all, Nat.sub_diag.
Qed.

(** A number as first argument is the call with its string. *)
Lemma lua_call_number (n : Z) (more : list lua_value) (m : machine) :
  lua_call chdir_lua (LInteger n :: more) m
  = lua_call chdir_lua (LString (lua_number_tostring n) :: more) m.
Proof. reflexivity. Qed.

(** [chdir_lua] on a stack that holds a string and further arguments: the
    run of the call with the string alone, its results pushed on top of
    all the arguments, and their number returned. *)
Lemma chdir_lua_string (t : string) (more : list lua_value) (m : machine) :
  chdir_lua (set_stack (LString t :: more) m)
  = match changeDirectory t m with
    | Returned vs m' =>
        @Ok H nat (List.length vs) (set_stack ((LString t :: more) ++ vs) m')
    | Threw e m' => @Raise H nat e m'
    end.
Proof.
  destruct (getcwd_query (os m) PATH_MAX) as [e|p] eqn:Hq;
    [| destruct (lookup (os m) (c_str t)) as [e|d] eqn:Hl].
  - rewrite (run_query_failure t m e Hq).
    unfold chdir_lua, bind, luaL_checkstring, getcwd. cbn.
    rewrite Hq. cbn. now rewrite <- !app_assoc.
  - rewrite (run_chdir_failure t m p e Hq Hl).
    unfold chdir_lua, bind, luaL_checkstring, getcwd, chdir. cbn.
    rewrite Hq. cbn. rewrite Hl. cbn. now rewrite <- !app_assoc.
  - rewrite (run_success t m p d Hq Hl).
    unfold chdir_lua, bind, luaL_checkstring, getcwd, chdir. cbn.
    rewrite Hq. cbn. rewrite Hl. cbn. now rewrite c_str_store, <- !app_assoc.
Qed.

Lemma lua_call_string (t : string) (more : list lua_value) (m : machine) :
  lua_call chdir_lua (LString t :: more) m
  = match changeDirectory t m with
    | Returned vs m' => Returned vs (set_stack ((LString t :: more) ++ vs) m')
    | Threw e m' => Threw e m'
    end.
Proof.
  unfold lua_call at 1. rewrite chdir_lua_string.
  destruct (changeDirectory t m) as [vs m'|e m']; [|reflexivity].
  cbn [stack set_stack].
  now rewrite skipn_results.
Qed.

(** A call with a usable first argument, whatever follows it. *)
Lemma lua_call_target (args : list lua_value) (t : string) (m : machine) :
  target_of (nth_error args 0) = Some t ->
  lua_call chdir_lua args m
  = match changeDirectory t m with
    | Returned vs m' => Returned vs (set_stack ((LString t :: tl args) ++ vs) m')
    | Threw e m' => Threw e m'
    end.
Proof.
  destruct args as [|v more]; [discriminate|].
  destruct v; cbn [nth_error target_of tl]; try discriminate; intros [= <-].
  - rewrite lua_call_number. apply lua_call_string.
  - apply lua_call_string.
Qed.

(** A call without one. *)
Lemma lua_call_no_target (args : list lua_value) (m : machine) :
  target_of (nth_error args 0) = None ->
  lua_call chdir_lua args m
  = Threw (bad_argument 1 "string" (lua_typename (nth_error args 0))) (set_stack args m).
Proof.
  intros Ht. pose proof (run_bad_argument args m) as Hrun.
  destruct (nth_error args 0) as [[]|]; try discriminate; exact Hrun.
Qed.

(** What a call with any arguments shares with the call on the string
    alone: everything but the stack. *)
Lemma lua_call_target_fields (args : list lua_value) (t : string) (m : machine) :
  target_of (nth_error args 0) = Some t ->
  let o := lua_call chdir_lua args m in
  let o0 := changeDirectory t m in
  values_of o = values_of o0 /\
  os (machine_of o) = os (machine_of o0) /\
  errno (machine_of o) = errno (machine_of o0) /\
  buf (machine_of o) = buf (machine_of o0) /\
  trace (machine_of o) = trace (machine_of o0).
Proof.
  intros Ht o o0. subst o o0. rewrite (lua_call_target args t m Ht).
  destruct (changeDirectory t m); cbn; auto.
Qed.

(** The answer and the kernel state after a call are a function of the
    arguments and the kernel state before. *)
Lemma lua_call_same_os (args : list lua_value) (m1 m2 : machine) :
  os m1 = os m2 ->
  values_of (lua_call chdir_lua args m1) = values_of (lua_call chdir_lua args m2) /\
  os (machine_of (lua_call chdir_lua args m1)) = os (machine_of (lua_call chdir_lua args m2)).
Proof.
  intros Hw.
  destruct (target_of (nth_error args 0)) as [t|] eqn:Ht.
  - destruct (lua_call_target_fields args t m1 Ht) as (-> & -> & _).
    destruct (lua_call_target_fields args t m2 Ht) as (-> & -> & _).
    destruct (changeDirectory_run t m1) as [e Hq | p e Hq Hl | p d Hq Hl];
      rewrite Hw in *.
    + rewrite (run_query_failure t m2 e Hq). cbn. now rewrite Hw.
    + rewrite (run_chdir_failure t m2 p e Hq Hl). cbn. now rewrite Hw.
    + rewrite (run_success t m2 p d Hq Hl). cbn. now rewrite Hw.
  - rewrite !(lua_call_no_target _ _ Ht). cbn. auto.
Qed.

(** A call that does not return the success form leaves the kernel state as
    it was. *)
Lemma lua_call_not_success (args : list lua_value) (m : machine) :
  (forall previous, values_of (lua_call chdir_lua args m) <> Some (success_form previous)) ->
  os (machine_of (lua_call chdir_lua args m)) = os m.
Proof.
  intros Hns.
  destruct (target_of (nth_error args 0)) as [t|] eqn:Ht.
  - destruct (lua_call_target_fields args t m Ht) as (Hv & -> & _).
    rewrite Hv in Hns.
    destruct (changeDirectory_run t m) as [e Hq | p e Hq Hl | p d Hq Hl];
      try reflexivity.
    now destruct (Hns (c_str p)).
  - now rewrite (lua_call_no_target _ _ Ht).
Qed.

(** The buffer through a call with any arguments. *)
Lemma lua_call_buffer_size (args : list lua_value) (m : machine) :
  String.length (buf m) = PATH_MAX ->
  String.length (buf (machine_of (lua_call chdir_lua args m))) = PATH_MAX.
Proof.
  intros Hsize.
  destruct (target_of (nth_error args 0)) as [t|] eqn:Ht.
  - destruct (lua_call_target_fields args t m Ht) as (_ & _ & _ & -> & _).
    now apply buffer_size_kept.
  - now rewrite (lua_call_no_target _ _ Ht).
Qed.

(** The trace through a call with any arguments. *)
Lemma lua_call_query_first (args : list lua_value) (m : machine) :
  query_first (trace m) ->
  query_first (trace (machine_of (lua_call chdir_lua args m))).
Proof.
  intros Hqf.
  destruct (target_of (nth_error args 0)) as [t|] eqn:Ht.
  - destruct (lua_call_target_fields args t m Ht) as (_ & _ & _ & _ & ->).
    destruct (changeDirectory_run t m); cbn; now constructor.
  - now rewrite (lua_call_no_target _ _ Ht).
Qed.

(** In such a trace a chdir stands right after a query. *)
Lemma query_first_chdir (tr : list os_call) :
  query_first tr ->
  forall pre p post,
    tr = (pre ++ call_chdir p :: post)%list ->
    exists pre', pre = (pre' ++ [call_getcwd PATH_MAX])%list.
Proof.
  induction 1 as [| t Hqf IH | t q Hqf IH]; intros pre p post Heq.
  - now destruct pre.
  - destruct (exists_last (l := call_chdir p :: post)) as (mid & z & Hmid);
      [discriminate|].
    rewrite Hmid, app_assoc in Heq. apply app_inj_tail in Heq as [Ht Hz].
    destruct mid as [|c mid]; cbn in Hmid.
    + injection Hmid as <- _. discriminate.
    + injection Hmid as <- _. now apply (IH pre p mid).
  - change [call_getcwd PATH_MAX; call_chdir q]
      with ([call_getcwd PATH_MAX] ++ [call_chdir q])%list in Heq.
    destruct (exists_last (l := call_chdir p :: post)) as (mid & z & Hmid);
      [discriminate|].
    rewrite Hmid, !app_assoc in Heq. apply app_inj_tail in Heq as [Ht Hz].
    destruct mid as [|c mid]; cbn in Hmid.
    + rewrite app_nil_r in Ht. now exists t.
    + injection Hmid as <- Hpost.
      destruct (exists_last (l := call_chdir p :: mid)) as (mid' & z' & Hmid');
        [discriminate|].
      rewrite Hmid', app_assoc in Ht. apply app_inj_tail in Ht as [Ht Hz'].
      destruct mid' as [|c' mid']; cbn in Hmid'.
      * injection Hmid' as <- _. discriminate.
      * injection Hmid' as <- _. now apply (IH pre p mid').
Qed.

Lemma string_repeat_length (c : ascii) (n : nat) :
  String.length (string_repeat c n) = n.
Proof. induction n; simpl; congruence. Qed.

End Calls.

Section Extras.

Context {H : Host}.

(** X1.  Only the first argument counts, read as a string: a call with a
    string or a number first and anything after it returns the same values,
    leaves the same kernel state and makes the same operating-system calls
    as the call on that string alone. *)
Theorem first_argument_decides (args : list lua_value) (t : string) (m : machine) :
  target_of (nth_error args 0) = Some t ->
  values_of (lua_call chdir_lua args m) = values_of (changeDirectory t m) /\
  os (machine_of (lua_call chdir_lua args m)) = os (machine_of (changeDirectory t m)) /\
  new_calls m (lua_call chdir_lua args m) = new_calls m (changeDirectory t m).
Proof.
  intros Ht.
  destruct (lua_call_target_fields args t m Ht) as (Hv & Hw & _ & _ & Htr).
  unfold new_calls. rewrite Htr. auto.
Qed.

(** X2.  A call whose first argument is missing or is neither a string nor
    a number raises the argument error of luaL_checkstring, naming argument
    1 and the type found; it returns nothing, calls nothing in the
    operating system and leaves the kernel state as it was. *)
Theorem bad_first_argument_raises (args : list lua_value) (m : machine) :
  target_of (nth_error args 0) = None ->
  let o := lua_call chdir_lua args m in
  (exists m', o = Threw (bad_argument 1 "string" (lua_typename (nth_error args 0))) m') /\
  values_of o = None /\
  new_calls m o = [] /\
  os (machine_of o) = os m.
Proof.
  intros Ht o. subst o. rewrite (lua_call_no_target args m Ht).
  split; [eexists; reflexivity|].
  split; [reflexivity|].
  split; [|reflexivity].
  unfold new_calls. cbn. apply skipn_all.
Qed.

(** X3.  A success result is sound: when a call returns the success form
    with value P, its first argument read as a path named an accessible
    directory, that directory is the working directory after the call, and
    P is the path name of the working directory before it. *)
Theorem success_means_changed {HL : HostLaws H}
    (args : list lua_value) (m : machine) (previous : string) :
  values_of (lua_call chdir_lua args m) = Some (success_form previous) ->
  cwd_is (os m) previous /\
  exists t d,
    target_of (nth_error args 0) = Some t /\
    accessible (os m) t d /\
    cwd (os (machine_of (lua_call chdir_lua args m))) = d.
Proof.
  intros Hv.
  destruct (target_of (nth_error args 0)) as [t|] eqn:Ht.
  - destruct (lua_call_target_fields args t m Ht) as (Hv' & Hw & _).
    rewrite Hv' in Hv. rewrite Hw.
    destruct (changeDirectory_run t m) as [e Hq | p e Hq Hl | p d Hq Hl];
      cbn [values_of] in Hv; try discriminate.
    injection Hv as <-.
    apply getcwd_query_inr in Hq as [Hc _].
    rewrite (cwd_path_c_str _ _ Hc).
    split; [exact Hc|].
    exists t, d. repeat split; [exact Hl|]. cbn. apply cwd_set_cwd.
  - rewrite (lua_call_no_target _ _ Ht) in Hv. discriminate.
Qed.

(** X4.  A failure result means nothing happened: when a call returns the
    failure form, the kernel state, the working directory with it, is what
    it was before the call, and errno holds the code returned. *)
Theorem failure_means_untouched
    (args : list lua_value) (m : machine) (msg : string) (code : Z) :
  values_of (lua_call chdir_lua args m) = Some (failure_form msg code) ->
  os (machine_of (lua_call chdir_lua args m)) = os m /\
  errno (machine_of (lua_call chdir_lua args m)) = code.
Proof.
  intros Hv.
  destruct (target_of (nth_error args 0)) as [t|] eqn:Ht.
  - destruct (lua_call_target_fields args t m Ht) as (Hv' & -> & -> & _).
    rewrite Hv' in Hv.
    destruct (changeDirectory_run t m) as [e Hq | p e Hq Hl | p d Hq Hl];
      cbn [values_of] in Hv; try discriminate;
      injection Hv as _ <-; split; reflexivity.
  - rewrite (lua_call_no_target _ _ Ht) in Hv. discriminate.
Qed.

(** X5.  A call that did not succeed (it returned the failure form or
    raised) leaves no mark on later calls: any call after it returns what
    it would have returned, and leaves the kernel state it would have left,
    had the unsuccessful call not been made. *)
Theorem failed_call_leaves_no_mark (first next : list lua_value) (m : machine) :
  (forall previous,
     values_of (lua_call chdir_lua first m) <> Some (success_form previous)) ->
  values_of (lua_call chdir_lua next (machine_of (lua_call chdir_lua first m)))
  = values_of (lua_call chdir_lua next m) /\
  os (machine_of (lua_call chdir_lua next (machine_of (lua_call chdir_lua first m))))
  = os (machine_of (lua_call chdir_lua next m)).
Proof.
  intros Hns. apply lua_call_same_os. now apply lua_call_not_success.
Qed.

(** X6.  The static buffer is never outgrown: after any session of calls,
    with any arguments, from a freshly loaded module, [buf] still has its
    PATH_MAX bytes; getcwd has written nothing past its end. *)
Theorem buffer_size_through_sessions (w : world) (calls : list (list lua_value)) :
  String.length (buf (snd (session calls (boot w)))) = PATH_MAX.
Proof.
  assert (Hgen : forall cs m, String.length (buf m) = PATH_MAX ->
                   String.length (buf (snd (session cs m))) = PATH_MAX).
  { induction cs as [|args cs IH]; intros m Hm; cbn [session].
    - exact Hm.
    - specialize (IH _ (lua_call_buffer_size args m Hm)).
      destruct (session cs (machine_of (lua_call chdir_lua args m))). exact IH. }
  apply Hgen. cbn. apply string_repeat_length.
Qed.

(** X7.  Query first, always: in any session from a freshly loaded module,
    every call the process makes into the operating system is a getcwd with
    PATH_MAX or a chdir that comes right after one; chdir is never called
    on its own, never twice in a row, and getcwd with no other size. *)
Theorem sessions_query_first (w : world) (calls : list (list lua_value)) :
  let tr := trace (snd (session calls (boot w))) in
  query_first tr /\
  forall pre p post,
    tr = (pre ++ call_chdir p :: post)%list ->
    exists pre', pre = (pre' ++ [call_getcwd PATH_MAX])%list.
Proof.
  assert (Hgen : forall cs m, query_first (trace m) ->
                   query_first (trace (snd (session cs m)))).
  { induction cs as [|args cs IH]; intros m Hm; cbn [session].
    - exact Hm.
    - specialize (IH _ (lua_call_query_first args m Hm)).
      destruct (session cs (machine_of (lua_call chdir_lua args m))). exact IH. }
  assert (Hqf : query_first (trace (snd (session calls (boot w)))))
    by (apply Hgen; constructor).
  split; [exact Hqf | now apply query_first_chdir].
Qed.

(** X8.  A whole session is a function of the kernel state it starts in:
    two machines in the same kernel state, whatever their buffers, errno
    and past, give the same answers to the same calls, one after the other,
    and end in the same kernel state. *)
Theorem session_depends_on_kernel_state
    (calls : list (list lua_value)) (m1 m2 : machine) :
  os m1 = os m2 ->
  fst (session calls m1) = fst (session calls m2) /\
  os (snd (session calls m1)) = os (snd (session calls m2)).
Proof.
  revert m1 m2.
  induction calls as [|args cs IH]; intros m1 m2 Hw; cbn [session].
  - split; [reflexivity | exact Hw].
  - destruct (lua_call_same_os args m1 m2 Hw) as [Hv Hw'].
    specialize (IH _ _ Hw').
    destruct (session cs (machine_of (lua_call chdir_lua args m1))) as [a1 n1].
    destruct (session cs (machine_of (lua_call chdir_lua args m2))) as [a2 n2].
    cbn [fst snd] in *. destruct IH as [-> ->]. now rewrite Hv.
Qed.

(** X9.  A session in which no call returns the success form ends in the
    kernel state it began in: the working directory moves only through a
    call that reports it. *)
Theorem failed_session_stays (calls : list (list lua_value)) (m : machine) :
  (forall answer previous,
     In answer (fst (session calls m)) -> answer <> Some (success_form previous)) ->
  os (snd (session calls m)) = os m.
Proof.
  revert m.
  induction calls as [|args cs IH]; intros m Hns; cbn [session] in *.
  - reflexivity.
  - specialize (IH (machine_of (lua_call chdir_lua args m))).
    destruct (session cs (machine_of (lua_call chdir_lua args m))) as [answers m'].
    cbn [fst snd] in *.
    rewrite IH.
    + apply lua_call_not_success. intros previous. apply Hns. now left.
    + intros answer previous Hin. apply Hns. now right.
Qed.

(** X10.  Loading the module returns one value, a function, whatever the
    loader passes; it calls nothing in the operating system, leaves the
    kernel state as it was, and every later call of the function behaves as
    it would have without the loading. *)
Theorem module_load (loader_args : list lua_value) (m : machine) :
  let o := lua_call luaopen_luarocks_build_hooks_chdir loader_args m in
  values_of o = Some [LFunction] /\
  new_calls m o = [] /\
  os (machine_of o) = os m /\
  forall args, lua_call chdir_lua args (machine_of o) = lua_call chdir_lua args m.
Proof.
  intros o. subst o.
  unfold lua_call at 1 2 3 4, luaopen_luarocks_build_hooks_chdir, bind, lua_pushcfunction,
    lua_push, ret.
  cbn [stack set_stack values_of machine_of os].
  split; [|split; [|split]].
  - f_equal. now apply (skipn_results loader_args [LFunction] 1).
  - unfold new_calls. cbn. apply skipn_all.
  - reflexivity.
  - reflexivity.
Qed.

End Extras.

(* ------------------------------------------------------------------------- *)
(** ** errno between the two reads *)

Section Errno.

Context {H : Host}.

(** Over the quiet runtime [chdir_lua_on] is [chdir_lua]. *)
Lemma chdir_lua_on_quiet (m : machine) : chdir_lua_on quiet m = chdir_lua m.
Proof. reflexivity. Qed.

(** The failing runs over any runtime: the message is read from errno
    before [lua_pushstring], the code after it. *)
Lemma run_on_query_failure (rt : runtime) (targetPath : string) (m : machine) (e : Z) :
  getcwd_query (os m) PATH_MAX = inl e ->
  lua_call (chdir_lua_on rt) [LString targetPath] m
  = Returned (failure_form (strerror e) (rt (strerror e) e))
      (mk_machine (os m) (rt (strerror e) e) (buf m)
         [LString targetPath; LNil; LString (strerror e); LInteger (rt (strerror e) e)]
         (trace m ++ [call_getcwd PATH_MAX])).
Proof.
  intros Hq.
  unfold lua_call, chdir_lua_on, bind, luaL_checkstring, getcwd.
  cbn. rewrite Hq. reflexivity.
Qed.

Lemma run_on_chdir_failure (rt : runtime) (targetPath : string) (m : machine)
    (p : string) (e : Z) :
  getcwd_query (os m) PATH_MAX = inr p ->
  lookup (os m) (c_str targetPath) = inl e ->
  lua_call (chdir_lua_on rt) [LString targetPath] m
  = Returned (failure_form (strerror e) (rt (strerror e) e))
      (mk_machine (os m) (rt (strerror e) e) (store_cstr (buf m) p)
         [LString targetPath; LNil; LString (strerror e); LInteger (rt (strerror e) e)]
         (trace m ++ [call_getcwd PATH_MAX; call_chdir targetPath])).
Proof.
  intros Hq Hl.
  unfold lua_call, chdir_lua_on, bind, luaL_checkstring, getcwd, chdir.
  cbn. rewrite Hq. cbn. rewrite Hl. cbn. now rewrite app_two.
Qed.

Lemma run_on_success (rt : runtime) (targetPath : string) (m : machine)
    (p : string) (d : dir) :
  getcwd_query (os m) PATH_MAX = inr p ->
  lookup (os m) (c_str targetPath) = inr d ->
  values_of (lua_call (chdir_lua_on rt) [LString targetPath] m)
  = Some (success_form (c_str p)).
Proof.
  intros Hq Hl.
  unfold lua_call, chdir_lua_on, bind, luaL_checkstring, getcwd, chdir.
  cbn. rewrite Hq. cbn. rewrite Hl. cbn. now rewrite c_str_store.
Qed.

(** Every failure result over any runtime: the message is strerror of the
    errno [e] of the call that failed, the code is what the runtime left in
    errno after pushing that message. *)
Lemma failure_result_on (rt : runtime) (targetPath msg : string) (code : Z) (m : machine) :
  values_of (lua_call (chdir_lua_on rt) [LString targetPath] m)
    = Some (failure_form msg code) ->
  exists e,
    (getcwd_query (os m) PATH_MAX = inl e \/
     (query_succeeds (os m) /\ lookup (os m) (c_str targetPath) = inl e)) /\
    msg = strerror e /\
    code = rt (strerror e) e.
Proof.
  intros Hv.
  destruct (getcwd_query (os m) PATH_MAX) as [e|p] eqn:Hq;
    [| destruct (lookup (os m) (c_str targetPath)) as [e|d] eqn:Hl].
  - rewrite (run_on_query_failure rt _ _ _ Hq) in Hv. injection Hv as <- <-.
    exists e. split; [now left | split; reflexivity].
  - rewrite (run_on_chdir_failure rt _ _ _ _ Hq Hl) in Hv. injection Hv as <- <-.
    exists e. split; [right; split; [now exists p | reflexivity] | split; reflexivity].
  - rewrite (run_on_success rt _ _ _ _ Hq Hl) in Hv. discriminate.
Qed.

(** Message and code agree when the runtime leaves errno alone while it
    pushes the message, and this is all that makes them agree. *)
Lemma message_matches_code_when_kept
    (rt : runtime) (targetPath msg : string) (code : Z) (m : machine) :
  (forall e, rt (strerror e) e = e) ->
  values_of (lua_call (chdir_lua_on rt) [LString targetPath] m)
    = Some (failure_form msg code) ->
  msg = strerror code.
Proof.
  intros Hkept Hv.
  destruct (failure_result_on rt _ _ _ _ Hv) as (e & _ & -> & ->).
  now rewrite Hkept.
Qed.

End Errno.

(* ------------------------------------------------------------------------- *)
(** ** Runs on the concrete host *)

#[local] Existing Instance Unix.host.

(** P3 to P5 of the specification, and the two boundary strings. *)
Example run_nonexistent :
  values_of (changeDirectory "/path/does/not/exist" (boot Unix.small))
  = Some (failure_form "No such file or directory" 2).
Proof. vm_compute. reflexivity. Qed.

Example run_permission_denied :
  values_of (changeDirectory "/root" (boot Unix.small))
  = Some (failure_form "Permission denied" 13).
Proof. vm_compute. reflexivity. Qed.

Example run_same_directory :
  values_of (changeDirectory "/home/user" (boot Unix.small))
  = Some (success_form "/home/user").
Proof. vm_compute. reflexivity. Qed.

Example run_empty_string :
  values_of (changeDirectory "" (boot Unix.small))
  = Some (failure_form "No such file or directory" 2).
Proof. vm_compute. reflexivity. Qed.

Example run_overlong_string :
  values_of (changeDirectory (deep_path ++ "/") (boot Unix.small))
  = Some (failure_form "File name too long" 36).
Proof. vm_compute. reflexivity. Qed.

Example run_relative :
  cwd (os (machine_of (changeDirectory "../../tmp/" (boot Unix.small)))) = ["tmp"].
Proof. vm_compute. reflexivity. Qed.

(** A number is accepted as its string; a table is a Lua error. *)
Example run_number :
  values_of (lua_call chdir_lua [LInteger 12] (boot Unix.small))
  = Some (failure_form "No such file or directory" 2).
Proof. vm_compute. reflexivity. Qed.

Example run_table :
  exists m, lua_call chdir_lua [LTable] (boot Unix.small)
            = Threw (bad_argument 1 "string" "table") m.
Proof. eexists. vm_compute. reflexivity. Qed.

(** *** C1 *)

(** C1 as stated fails: the process is in a directory whose path name C has
    4096 bytes, D = "/" exists and is accessible, and the call returns the
    failure form of the query (ERANGE) and leaves the working directory
    where it was. *)
Lemma success_path_blocked_by_long_cwd :
  let m := boot Unix.deep_inside in
  accessible (os m) "/" [] /\
  cwd_is (os m) deep_path /\
  values_of (changeDirectory "/" m)
    = Some (failure_form "Numerical result out of range" ERANGE) /\
  values_of (changeDirectory "/" m) <> Some (success_form deep_path) /\
  cwd (os (machine_of (changeDirectory "/" m))) <> [].
Proof.
  cbv zeta.
  assert (Hv : values_of (changeDirectory "/" (boot Unix.deep_inside))
               = Some (failure_form "Numerical result out of range" ERANGE))
    by (vm_compute; reflexivity).
  split; [vm_compute; reflexivity|].
  split; [vm_compute; reflexivity|].
  split; [exact Hv|].
  split.
  - rewrite Hv. discriminate.
  - intros Hc. apply (f_equal (@List.length string)) in Hc.
    vm_compute in Hc. discriminate.
Qed.

Lemma success_path_witness :
  accessible (os (boot Unix.small)) "/tmp" ["tmp"] /\
  cwd_is (os (boot Unix.small)) "/home/user" /\
  exists m', changeDirectory "/tmp" (boot Unix.small)
             = Returned (success_form "/home/user") m' /\ cwd (os m') = ["tmp"].
Proof.
  assert (HD : accessible (os (boot Unix.small)) "/tmp" ["tmp"]) by (vm_compute; reflexivity).
  assert (HC : cwd_is (os (boot Unix.small)) "/home/user") by (vm_compute; reflexivity).
  split; [exact HD | split; [exact HC|]].
  apply (success_path (H := Unix.host) (HL := unix_laws) (boot (H := Unix.host) Unix.small) "/tmp" "/home/user" ["tmp"] HD HC).
  apply Nat.ltb_lt. vm_compute. reflexivity.
Defined.

(** *** C2 *)


(** *** C3 *)


(** *** C5 *)

(** C5 as stated fails.  From the root of [Unix.deep], A is the directory
    fifteen levels down, given by its absolute path name (3840 bytes), and B
    the directory below it, given by its name relative to A.  Both calls
    succeed, and the second returns r = A.  The path name of B has 4096
    bytes, so the third call fails at its query with ERANGE, chdir(r) is
    never made, and the process stays in B. *)
Lemma round_trip_stuck_in_deep_directory :
  let a := repeat Unix.long_name 15 in
  let b := repeat Unix.long_name 16 in
  let m0 := boot Unix.deep in
  let m1 := machine_of (changeDirectory above_path m0) in
  let m2 := machine_of (changeDirectory Unix.long_name m1) in
  let m3 := machine_of (changeDirectory above_path m2) in
  accessible (os m0) above_path a /\
  accessible (os m1) Unix.long_name b /\
  values_of (changeDirectory Unix.long_name m1) = Some (success_form above_path) /\
  (forall p, cwd_is (os m1) p -> accessible (os m2) p (cwd (os m1))) /\
  values_of (changeDirectory above_path m2)
    = Some (failure_form "Numerical result out of range" ERANGE) /\
  cwd (os m3) = b /\
  cwd (os m3) <> a.
Proof.
  cbv zeta.
  assert (H3 : cwd (os (machine_of (changeDirectory above_path
                 (machine_of (changeDirectory Unix.long_name
                   (machine_of (changeDirectory above_path (boot Unix.deep))))))))
               = repeat Unix.long_name 16) by (vm_compute; reflexivity).
  repeat match goal with |- _ /\ _ => split end;
    try (vm_compute; reflexivity).
  - intros p Hp. vm_compute in Hp. injection Hp as <-. vm_compute. reflexivity.
  - rewrite H3. intros Hc. apply (f_equal (@List.length string)) in Hc.
    vm_compute in Hc. discriminate.
Qed.

Lemma round_trip_witness :
  let m0 := boot Unix.small in
  let m1 := machine_of (changeDirectory "/tmp" m0) in
  let m2 := machine_of (changeDirectory "/home" m1) in
  let m3 := machine_of (changeDirectory "/tmp" m2) in
  accessible (os m0) "/tmp" ["tmp"] /\
  accessible (os m1) "/home" ["home"] /\
  values_of (changeDirectory "/home" m1) = Some (success_form "/tmp") /\
  (forall p, cwd_is (os m1) p -> accessible (os m2) p (cwd (os m1))) /\
  query_succeeds (os m2) /\
  cwd (os m3) = ["tmp"].
Proof.
  cbv zeta.
  assert (HA : accessible (os (boot Unix.small)) "/tmp" ["tmp"]) by (vm_compute; reflexivity).
  assert (HB : accessible (os (machine_of (changeDirectory "/tmp" (boot Unix.small))))
                 "/home" ["home"]) by (vm_compute; reflexivity).
  assert (Hr : values_of (changeDirectory "/home"
                 (machine_of (changeDirectory "/tmp" (boot Unix.small))))
               = Some (success_form "/tmp")) by (vm_compute; reflexivity).
  assert (Hback : forall p,
             cwd_is (os (machine_of (changeDirectory "/tmp" (boot Unix.small)))) p ->
             accessible
               (os (machine_of (changeDirectory "/home"
                      (machine_of (changeDirectory "/tmp" (boot Unix.small))))))
               p (cwd (os (machine_of (changeDirectory "/tmp" (boot Unix.small))))))
    by (intros p Hp; vm_compute in Hp; injection Hp as <-; vm_compute; reflexivity).
  assert (Hq : query_succeeds
                 (os (machine_of (changeDirectory "/home"
                        (machine_of (changeDirectory "/tmp" (boot Unix.small)))))))
    by (exists "/home"; vm_compute; reflexivity).
  repeat match goal with |- _ /\ _ => split end; try assumption.
  exact (round_trip (H := Unix.host) (HL := unix_laws) (boot (H := Unix.host) Unix.small)
           "/tmp" "/home" "/tmp" ["tmp"] ["home"] HA HB Hr Hback Hq).
Defined.

(** *** C7 *)

(** Two histories that end in [/tmp]: a process that came there from
    [/home/user] through the module, its buffer still holding that name,
    and a process started there. *)
Lemma previous_directory_not_retained_witness :
  let m1 := machine_of (changeDirectory "/tmp" (boot Unix.small)) in
  let m2 := boot (Unix.mk_fs (Unix.nodes Unix.small) ["tmp"]) in
  os m1 = os m2 /\
  c_str (buf m1) <> c_str (buf m2) /\
  values_of (changeDirectory "/home" m1) = values_of (changeDirectory "/home" m2) /\
  os (machine_of (changeDirectory "/home" m1)) = os (machine_of (changeDirectory "/home" m2)).
Proof.
  cbv zeta.
  assert (Hw : os (machine_of (changeDirectory "/tmp" (boot Unix.small)))
               = os (boot (Unix.mk_fs (Unix.nodes Unix.small) ["tmp"])))
    by (vm_compute; reflexivity).
  split; [exact Hw|].
  split; [vm_compute; discriminate|].
  exact (previous_directory_not_retained (H := Unix.host)
           (machine_of (changeDirectory "/tmp" (boot Unix.small)))
           (boot (H := Unix.host) (Unix.mk_fs (Unix.nodes Unix.small) ["tmp"]))
           "/home" Hw).
Defined.

(** *** C8 *)


(** *** C10 *)


(* ------------------------------------------------------------------------- *)
(** ** Arguments, loading and sessions on the concrete host *)

(** *** X1 *)

Lemma first_argument_decides_witness :
  let args := [LString "/tmp"; LInteger 7; LTable] in
  target_of (nth_error args 0) = Some "/tmp" /\
  values_of (lua_call chdir_lua args (boot Unix.small))
    = values_of (changeDirectory "/tmp" (boot Unix.small)) /\
  os (machine_of (lua_call chdir_lua args (boot Unix.small)))
    = os (machine_of (changeDirectory "/tmp" (boot Unix.small))) /\
  new_calls (boot Unix.small) (lua_call chdir_lua args (boot Unix.small))
    = new_calls (boot Unix.small) (changeDirectory "/tmp" (boot Unix.small)).
Proof.
  cbv zeta.
  assert (Ht : target_of (H := Unix.host)
                 (nth_error [LString "/tmp"; LInteger 7; LTable] 0) = Some "/tmp")
    by reflexivity.
  split; [exact Ht|].
  exact (first_argument_decides (H := Unix.host) [LString "/tmp"; LInteger 7; LTable]
           "/tmp" (boot (H := Unix.host) Unix.small) Ht).
Defined.

(** *** X2 *)

Lemma bad_first_argument_raises_witness :
  target_of (nth_error [LTable; LString "/tmp"] 0) = None /\
  let o := lua_call chdir_lua [LTable; LString "/tmp"] (boot Unix.small) in
  (exists m', o = Threw (bad_argument 1 "string" "table") m') /\
  values_of o = None /\
  new_calls (boot Unix.small) o = [] /\
  os (machine_of o) = Unix.small.
Proof.
  assert (Ht : target_of (H := Unix.host) (nth_error [LTable; LString "/tmp"] 0) = None)
    by reflexivity.
  split; [exact Ht|].
  exact (bad_first_argument_raises (H := Unix.host) [LTable; LString "/tmp"]
           (boot (H := Unix.host) Unix.small) Ht).
Defined.

(** *** X3 *)

Lemma success_means_changed_witness :
  values_of (lua_call chdir_lua [LString "../../tmp"] (boot Unix.small))
    = Some (success_form "/home/user") /\
  cwd_is (os (boot Unix.small)) "/home/user" /\
  exists t d,
    target_of (nth_error [LString "../../tmp"] 0) = Some t /\
    accessible (os (boot Unix.small)) t d /\
    cwd (os (machine_of (lua_call chdir_lua [LString "../../tmp"] (boot Unix.small)))) = d.
Proof.
  assert (Hv : values_of (lua_call chdir_lua [LString "../../tmp"] (boot Unix.small))
               = Some (success_form "/home/user")) by (vm_compute; reflexivity).
  split; [exact Hv|].
  exact (success_means_changed (H := Unix.host) (HL := unix_laws) [LString "../../tmp"]
           (boot (H := Unix.host) Unix.small) "/home/user" Hv).
Defined.

(** *** X4 *)

Lemma failure_means_untouched_witness :
  values_of (lua_call chdir_lua [LString "/root"] (boot Unix.small))
    = Some (failure_form "Permission denied" 13) /\
  os (machine_of (lua_call chdir_lua [LString "/root"] (boot Unix.small))) = Unix.small /\
  errno (machine_of (lua_call chdir_lua [LString "/root"] (boot Unix.small))) = 13%Z.
Proof.
  assert (Hv : values_of (lua_call chdir_lua [LString "/root"] (boot Unix.small))
               = Some (failure_form "Permission denied" 13)) by (vm_compute; reflexivity).
  split; [exact Hv|].
  exact (failure_means_untouched (H := Unix.host) [LString "/root"]
           (boot (H := Unix.host) Unix.small) "Permission denied" 13%Z Hv).
Defined.

(** *** X5 *)

Lemma failed_call_leaves_no_mark_witness :
  let m := boot Unix.small in
  let first := [LString "/etc/passwd"] in
  let next := [LString "/tmp"] in
  values_of (lua_call chdir_lua first m) = Some (failure_form "Not a directory" 20) /\
  values_of (lua_call chdir_lua next (machine_of (lua_call chdir_lua first m)))
    = values_of (lua_call chdir_lua next m) /\
  os (machine_of (lua_call chdir_lua next (machine_of (lua_call chdir_lua first m))))
    = os (machine_of (lua_call chdir_lua next m)).
Proof.
  cbv zeta.
  assert (Hv : values_of (lua_call chdir_lua [LString "/etc/passwd"] (boot Unix.small))
               = Some (failure_form "Not a directory" 20)) by (vm_compute; reflexivity).
  split; [exact Hv|].
  apply (failed_call_leaves_no_mark (H := Unix.host) [LString "/etc/passwd"]
           [LString "/tmp"] (boot (H := Unix.host) Unix.small)).
  intros previous. rewrite Hv. discriminate.
Defined.

(** *** X8 *)

(** The two histories of the C7 witness, and a session of three calls: a
    change, a bad argument, a change by a relative name. *)
Lemma session_depends_on_kernel_state_witness :
  let m1 := machine_of (changeDirectory "/tmp" (boot Unix.small)) in
  let m2 := boot (Unix.mk_fs (Unix.nodes Unix.small) ["tmp"]) in
  let calls := [[LString "/home"]; [LTable]; [LString "user"]] in
  os m1 = os m2 /\
  buf m1 <> buf m2 /\
  fst (session calls m1)
    = [Some (success_form "/tmp"); None; Some (success_form "/home")] /\
  fst (session calls m1) = fst (session calls m2) /\
  os (snd (session calls m1)) = os (snd (session calls m2)).
Proof.
  cbv zeta.
  assert (Hw : os (machine_of (changeDirectory "/tmp" (boot Unix.small)))
               = os (boot (Unix.mk_fs (Unix.nodes Unix.small) ["tmp"])))
    by (vm_compute; reflexivity).
  split; [exact Hw|].
  split; [vm_compute; discriminate|].
  split; [vm_compute; reflexivity|].
  exact (session_depends_on_kernel_state (H := Unix.host)
           [[LString "/home"]; [LTable]; [LString "user"]]
           (machine_of (changeDirectory "/tmp" (boot Unix.small)))
           (boot (H := Unix.host) (Unix.mk_fs (Unix.nodes Unix.small) ["tmp"])) Hw).
Defined.

(** *** X9 *)

Lemma failed_session_stays_witness :
  let calls := [[LString "/nowhere"]; []; [LString "/root"]] in
  fst (session calls (boot Unix.small))
    = [Some (failure_form "No such file or directory" 2); None;
       Some (failure_form "Permission denied" 13)] /\
  os (snd (session calls (boot Unix.small))) = Unix.small.
Proof.
  cbv zeta.
  assert (Ha : fst (session [[LString "/nowhere"]; []; [LString "/root"]] (boot Unix.small))
               = [Some (failure_form "No such file or directory" 2); None;
                  Some (failure_form "Permission denied" 13)])
    by (vm_compute; reflexivity).
  split; [exact Ha|].
  apply (failed_session_stays (H := Unix.host) [[LString "/nowhere"]; []; [LString "/root"]]
           (boot (H := Unix.host) Unix.small)).
  intros answer previous Hin. rewrite Ha in Hin.
  destruct Hin as [<-|[<-|[<-|[]]]]; discriminate.
Defined.

(** *** X6, X7, X10 *)

(** A session that fails, changes and fails again, and what it leaves. *)
Example run_session :
  let calls := [[LString "/nowhere"]; [LInteger 7; LTable]; [LString "/tmp"]; [LNil]] in
  fst (session calls (boot Unix.small))
    = [Some (failure_form "No such file or directory" 2);
       Some (failure_form "No such file or directory" 2);
       Some (success_form "/home/user"); None] /\
  trace (snd (session calls (boot Unix.small)))
    = [call_getcwd 4096; call_chdir "/nowhere"; call_getcwd 4096; call_chdir "7";
       call_getcwd 4096; call_chdir "/tmp"] /\
  c_str (buf (snd (session calls (boot Unix.small)))) = "/home/user".
Proof. vm_compute. repeat split. Qed.

Example run_module_load :
  values_of (lua_call luaopen_luarocks_build_hooks_chdir
               [LString "luarocks.build.hooks.chdir"] (boot Unix.small))
  = Some [LFunction].
Proof. vm_compute. reflexivity. Qed.

(** *** C9 *)

(** C9, on the code.  The claim: in every failure result the message is
    strerror of the code, both from the errno of the one failing call.  The
    code reads errno twice, before and after [lua_pushstring].  Here chdir
    fails on "/nowhere" with errno 2, and the push of the message runs a
    finalizer that leaves errno at 13 (its own call was refused): the call
    returns the message of errno 2, "No such file or directory", with the
    code 13, whose message is another; the errno of the failing call, 2, is
    not returned. *)
Theorem failure_code_read_after_push :
  let o := lua_call (chdir_lua_on (finalizer_leaves 13)) [LString "/nowhere"]
             (boot Unix.small) in
  lookup (os (boot Unix.small)) (c_str "/nowhere") = inl 2%Z /\
  values_of o = Some (failure_form (strerror 2) 13) /\
  strerror 2 = "No such file or directory" /\
  strerror 13 <> strerror 2 /\
  new_calls (boot Unix.small) o = [call_getcwd PATH_MAX; call_chdir "/nowhere"].
Proof.
  cbv zeta.
  assert (Hq : getcwd_query (os (boot Unix.small)) PATH_MAX = inr "/home/user")
    by (vm_compute; reflexivity).
  assert (Hl : lookup (os (boot Unix.small)) (c_str "/nowhere") = inl 2%Z)
    by (vm_compute; reflexivity).
  rewrite (run_on_chdir_failure (H := Unix.host) (finalizer_leaves 13) "/nowhere"
             (boot (H := Unix.host) Unix.small) "/home/user" 2%Z Hq Hl).
  split; [exact Hl|].
  split; [reflexivity|].
  split; [vm_compute; reflexivity|].
  split; [vm_compute; discriminate|].
  vm_compute. reflexivity.
Qed.

(** The same on the first failure path: the working directory was removed,
    getcwd fails with errno 2, and the code returned is 13. *)
Example run_query_failure_clobbered :
  values_of (lua_call (chdir_lua_on (finalizer_leaves 13)) [LString "/tmp"]
               (boot Unix.orphaned))
  = Some (failure_form "No such file or directory" 13).
Proof. vm_compute. reflexivity. Qed.

(** Over the quiet runtime the two agree. *)
Example run_quiet :
  values_of (lua_call (chdir_lua_on quiet) [LString "/nowhere"] (boot Unix.small))
  = Some (failure_form "No such file or directory" 2).
Proof. vm_compute. reflexivity. Qed.
